(** * IMAPViewer launcher (src/launcher/main.cpp)

    A shallow embedding of the launcher: the four helper functions and
    [main], written in a small monad that threads the launcher's observable
    state (the sequence of operating-system calls it made, the handles it
    owns, the thread's last-error value, whether the error stream has
    failed, whether memory has run out) and that can end in a normal
    return, a C++ exception or a wait that never comes back.

    The operating system is a record of answers ([world]): what
    GetModuleFileNameW leaves in the buffer, what fs::exists says about a
    path, whether CreateProcessW succeeds, how the wait ends, what
    GetExitCodeProcess reports and what the error stream lets through.
    Every property below is proved for all worlds unless it names a
    concrete one. *)

From Stdlib Require Import ZArith List Lia Bool Ascii String DecimalString.
Import ListNotations.
Local Open Scope Z_scope.

(** ** Wide strings *)

Module WString.

(** [wchar_t] is a 16-bit code unit on Windows; [std::wstring] is a
    sequence of them. *)
Definition wchar_t := Z.
Definition wstring := list wchar_t.

(** A wide string literal whose characters are ASCII. *)
Definition L (s : string) : wstring :=
  map (fun a => Z.of_N (N_of_ascii a)) (list_ascii_of_string s).

(** Characters that a Rocq string literal cannot spell. *)
Definition dquote : wchar_t := 34.      (* the double quote *)
Definition newline : wchar_t := 10.     (* the line feed *)
Definition backslash : wchar_t := 92.   (* the path separator *)

(** [s.find_last_of(set)]: the greatest index whose character belongs to
    [set]; [None] stands for [npos]. *)
Fixpoint find_last_of (s set : wstring) : option nat :=
  match s with
  | [] => None
  | c :: rest =>
      match find_last_of rest set with
      | Some i => Some (S i)
      | None => if existsb (Z.eqb c) set then Some O else None
      end
  end.

(** [s.substr(pos, n)] for [pos <= s.size()]. *)
Definition substr (s : wstring) (pos n : nat) : wstring :=
  firstn n (skipn pos s).

(** Conversion of a narrow [char] to [wchar_t], as done by the range
    constructor [std::wstring(first, last)] over a [std::string]: [char]
    is signed on the Windows targets, so bytes from 128 up are
    sign-extended into the 16-bit unit. *)
Definition widen_char (a : ascii) : wchar_t :=
  let n := Z.of_N (N_of_ascii a) in
  if n <? 128 then n else n + 65280.

Definition widen (s : string) : wstring :=
  map widen_char (list_ascii_of_string s).

(** A unit of the basic character set, which every locale converts. *)
Definition ascii_unit (c : wchar_t) : bool := (0 <=? c) && (c <? 128).

(** The units of a text before the first one outside ASCII. *)
Fixpoint ascii_prefix (text : wstring) : wstring :=
  match text with
  | [] => []
  | c :: rest => if ascii_unit c then c :: ascii_prefix rest else []
  end.

(** [stream << n] for an unsigned integer: its decimal digits. *)
Definition decimal (n : Z) : wstring :=
  L (NilEmpty.string_of_uint (N.to_uint (Z.to_N n))).

End WString.
Export WString.

(** ** Win32 data *)

Definition HANDLE := Z.
Definition DWORD := Z.

Definition MAX_PATH : Z := 260.
Definition INFINITE : DWORD := 4294967295.
Definition MB_OK : Z := 0.
Definition MB_ICONERROR : Z := 16.

(** The members of [PROCESS_INFORMATION] that the launcher uses. *)
Record PROCESS_INFORMATION := {
  hProcess : HANDLE;
  hThread : HANDLE
}.

(** [static_cast<int>(exitCode)] on a [DWORD]: the 32 bits read as a
    two's-complement [int]. *)
Definition static_cast_int (d : DWORD) : Z :=
  (d + 2147483648) mod 4294967296 - 2147483648.

(** ** Exceptions *)

(** What the two handlers of [main] tell apart: an exception derived from
    [std::exception], with its [what()] text, and anything else. *)
Inductive exn :=
| std_exception (what : string)
| other_exception.

(** ** The operating system as seen by one run *)

(** What [std::bad_alloc::what()] returns. *)
Definition bad_alloc_what : string := "bad allocation".

Inductive exists_answer :=
| ExistsYes
| ExistsNo
| ExistsThrows (what : string)   (* std::filesystem::filesystem_error *)
| ExistsFails (e : exn) (memory_left : bool).
    (* the call ends in [e], of either kind: running out of memory, or a
       fault that the build delivers to [catch (...)]; [memory_left] tells
       whether the strings a handler builds can still be allocated *)

Inductive spawn_answer :=
| Spawned (pi : PROCESS_INFORMATION)
| SpawnFailed (lastError : DWORD).

Inductive wait_answer :=
| WaitSignaled      (* WAIT_OBJECT_0: the child has terminated *)
| WaitFailed        (* WAIT_FAILED *)
| WaitNever.        (* the child never terminates; the call does not return *)

Record world := {
  (** the NUL-terminated contents of [buffer] after
      [GetModuleFileNameW(NULL, buffer, MAX_PATH)] *)
  module_file_name : wstring;
  (** [fs::exists(path)] *)
  fs_exists : wstring -> exists_answer;
  (** [CreateProcessW] on application name, command line and directory *)
  create_process : wstring -> wstring -> wstring -> spawn_answer;
  (** [WaitForSingleObject(h, INFINITE)] *)
  wait_for : HANDLE -> wait_answer;
  (** [GetExitCodeProcess(h, &code)]: [Some code] when the call succeeds and
      stores [code], [None] when it fails and stores nothing *)
  exit_code_of : HANDLE -> option DWORD;
  (** [std::wcerr << text] for a text with a unit outside ASCII, the
      program having set no locale: the units that reach the stream, and
      whether the stream is left in a failed state *)
  wcerr_output : wstring -> wstring * bool;
  (** ambient state of the launcher process *)
  current_directory : wstring;
  environment : list (wstring * wstring);
  command_line : list wstring
}.

(** ** Observable behaviour *)

Inductive event :=
| EvGetModuleFileName (nSize : Z)
| EvExists (path : wstring) (answer : exists_answer)
| EvCreateProcess (applicationName commandLine : wstring)
    (inheritHandles : bool) (creationFlags : DWORD)
    (currentDirectory : wstring) (answer : spawn_answer)
| EvGetLastError
| EvWait (h : HANDLE) (milliseconds : DWORD) (answer : wait_answer)
| EvGetExitCode (h : HANDLE) (answer : option DWORD)
| EvCloseHandle (h : HANDLE)
| EvMessageBox (text caption : wstring) (uType : Z)
| EvStderr (text : wstring).   (* the units one insertion put on the stream *)

Record state := {
  trace : list event;        (* calls made so far, oldest first *)
  handles : list HANDLE;     (* handles the launcher holds open *)
  last_error : DWORD;        (* the thread's last-error value *)
  wcerr_failed : bool;       (* the error stream has failed *)
  memory_exhausted : bool    (* no memory is left for a new string *)
}.

Definition initial_state : state :=
  {| trace := []; handles := []; last_error := 0;
     wcerr_failed := false; memory_exhausted := false |}.

(** ** The monad *)

Inductive outcome (A : Type) :=
| Ret (a : A)          (* normal completion *)
| Throw (e : exn)      (* a C++ exception is propagating *)
| Hang.                (* blocked for ever *)
Arguments Ret {A} a.
Arguments Throw {A} e.
Arguments Hang {A}.

Definition M (A : Type) := state -> outcome A * state.

Definition ret {A} (a : A) : M A := fun s => (Ret a, s).

Definition bind {A B} (m : M A) (k : A -> M B) : M B :=
  fun s =>
    match m s with
    | (Ret a, s') => k a s'
    | (Throw e, s') => (Throw e, s')
    | (Hang, s') => (Hang, s')
    end.

Definition throw {A} (e : exn) : M A := fun s => (Throw e, s).

(** [try { body } catch (const std::exception& e) { on_std(e.what()) }
    catch (...) { on_other }] *)
Definition try_catch {A} (body : M A) (on_std : string -> M A) (on_other : M A)
  : M A :=
  fun s =>
    match body s with
    | (Throw (std_exception what), s') => on_std what s'
    | (Throw other_exception, s') => on_other s'
    | r => r
    end.

Declare Scope launcher_scope.
Delimit Scope launcher_scope with launcher.
Notation "x <- m ;; k" := (bind m (fun x => k))
  (at level 61, m at next level, right associativity) : launcher_scope.
Notation "m ;; k" := (bind m (fun _ => k))
  (at level 61, right associativity) : launcher_scope.
Local Open Scope launcher_scope.

Definition log (e : event) : M unit :=
  fun s => (Ret tt, {| trace := trace s ++ [e];
                       handles := handles s;
                       last_error := last_error s;
                       wcerr_failed := wcerr_failed s;
                       memory_exhausted := memory_exhausted s |}).

(** Construction of a string that needs the heap: [std::bad_alloc] when no
    memory is left. *)
Definition new_string {A} (value : A) : M A :=
  fun s =>
    if memory_exhausted s
    then (Throw (std_exception bad_alloc_what), s)
    else (Ret value, s).

(** ** System calls *)

Definition GetModuleFileNameW (w : world) (nSize : Z) : M wstring :=
  log (EvGetModuleFileName nSize) ;;
  ret (module_file_name w).

Definition fs_exists_call (w : world) (path : wstring) : M bool :=
  log (EvExists path (fs_exists w path)) ;;
  match fs_exists w path with
  | ExistsYes => ret true
  | ExistsNo => ret false
  | ExistsThrows what => throw (std_exception what)
  | ExistsFails e memory_left =>
      fun s =>
        (Throw e,
         {| trace := trace s;
            handles := handles s;
            last_error := last_error s;
            wcerr_failed := wcerr_failed s;
            memory_exhausted := negb memory_left |})
  end.

(** On success the two new handles are owned by the caller; on failure the
    last-error value is set.  The arguments the launcher passes as
    constants are left out: both security attributes and the environment
    block are NULL, and the startup information is zero but for its size. *)
Definition CreateProcessW (w : world) (applicationName commandLine : wstring)
    (inheritHandles : bool) (creationFlags : DWORD)
    (currentDirectory : wstring) : M (option PROCESS_INFORMATION) :=
  let answer := create_process w applicationName commandLine currentDirectory in
  log (EvCreateProcess applicationName commandLine inheritHandles
         creationFlags currentDirectory answer) ;;
  fun s =>
    match answer with
    | Spawned pi =>
        (Ret (Some pi),
         {| trace := trace s;
            handles := handles s ++ [hProcess pi; hThread pi];
            last_error := last_error s;
            wcerr_failed := wcerr_failed s;
            memory_exhausted := memory_exhausted s |})
    | SpawnFailed code =>
        (Ret None,
         {| trace := trace s;
            handles := handles s;
            last_error := code;
            wcerr_failed := wcerr_failed s;
            memory_exhausted := memory_exhausted s |})
    end.

Definition GetLastError : M DWORD :=
  log EvGetLastError ;;
  fun s => (Ret (last_error s), s).

Definition WaitForSingleObject (w : world) (h : HANDLE) (milliseconds : DWORD)
  : M unit :=
  log (EvWait h milliseconds (wait_for w h)) ;;
  match wait_for w h with
  | WaitNever => fun s => (Hang, s)
  | _ => ret tt
  end.

(** The out-parameter is passed in with its current value and comes back
    with the value it holds after the call. *)
Definition GetExitCodeProcess (w : world) (h : HANDLE) (exitCode : DWORD)
  : M DWORD :=
  log (EvGetExitCode h (exit_code_of w h)) ;;
  match exit_code_of w h with
  | Some code => ret code
  | None => ret exitCode
  end.

Definition CloseHandle (h : HANDLE) : M unit :=
  log (EvCloseHandle h) ;;
  fun s =>
    (Ret tt,
     {| trace := trace s;
        handles := remove Z.eq_dec h (handles s);
        last_error := last_error s;
        wcerr_failed := wcerr_failed s;
        memory_exhausted := memory_exhausted s |}).

(** The call is modal: it comes back when the user dismisses the dialog.
    The embedding follows the runs in which every dialog is dismissed:
    what is proved of a run that shows a dialog holds once the dialog has
    been dismissed, and a run that stays in an unattended dialog is not
    represented. *)
Definition MessageBoxW (text caption : wstring) (uType : Z) : M unit :=
  log (EvMessageBox text caption uType).

(** What one insertion into [std::wcerr] puts on the stream, and whether
    the stream has failed afterwards.  A failed stream takes nothing more.
    The program sets no locale, so only ASCII text is sure to be
    converted; for any other text the world answers. *)
Definition insertion (w : world) (failed : bool) (text : wstring)
  : wstring * bool :=
  if failed then ([], true)
  else if forallb ascii_unit text then (text, false)
  else wcerr_output w text.

(** [std::wcerr << text] *)
Definition wcerr (w : world) (text : wstring) : M unit :=
  fun s =>
    (Ret tt,
     {| trace :=
          trace s ++ [EvStderr (fst (insertion w (wcerr_failed s) text))];
        handles := handles s;
        last_error := last_error s;
        wcerr_failed := snd (insertion w (wcerr_failed s) text);
        memory_exhausted := memory_exhausted s |}).

(** [std::wcerr << std::endl] *)
Definition wcerr_endl (w : world) : M unit := wcerr w [newline].

(** ** The launcher *)

(** Lines 17-27. *)
Definition GetExecutableDirectory (w : world) : M wstring :=
  buffer <- GetModuleFileNameW w MAX_PATH ;;
  let execPath := buffer in
  match find_last_of execPath (L "\") with
  | Some lastSlash => ret (substr execPath 0 lastSlash)
  | None => ret (L ".")
  end.

(** Lines 32-34. *)
Definition FileExists (w : world) (path : wstring) : M bool :=
  fs_exists_call w path.

(** Lines 39-79. *)
Definition LaunchApplication (w : world) (executablePath workingDir : wstring)
  : M Z :=
  let cmdLine := [dquote] ++ executablePath ++ [dquote] in
  success <- CreateProcessW w executablePath cmdLine false 0 workingDir ;;
  match success with
  | None =>
      error <- GetLastError ;;
      wcerr w (L "Failed to launch application. Error code: ") ;;
      wcerr w (decimal error) ;;
      wcerr_endl w ;;
      ret 1
  | Some pi =>
      WaitForSingleObject w (hProcess pi) INFINITE ;;
      exitCode <- GetExitCodeProcess w (hProcess pi) 0 ;;
      CloseHandle (hProcess pi) ;;
      CloseHandle (hThread pi) ;;
      ret (static_cast_int exitCode)
  end.

(** Lines 84-87. *)
Definition ShowError (w : world) (message : wstring) : M unit :=
  MessageBoxW message (L "IMAPViewer Launcher Error")
    (Z.lor MB_OK MB_ICONERROR) ;;
  wcerr w message ;;
  wcerr_endl w.

(** Lines 91-110: the body of the [try] block.  The existence check is
    the one call in it that is specified to throw, and it is where the
    world lets memory run out or a fault arrive; the strings built before
    it are taken to be allocated. *)
Definition main_body (w : world) : M Z :=
  launcherDir <- GetExecutableDirectory w ;;
  let targetExe := launcherDir ++ L "\app\imapviewer.exe" in
  found <- FileExists w targetExe ;;
  if negb found then
    let errorMsg :=
      (L "Could not find the main application at:" ++ [newline])
        ++ targetExe
        ++ ([newline; newline]
              ++ L "Please ensure the application is properly installed.") in
    ShowError w errorMsg ;;
    ret 1
  else
    let appDir := launcherDir ++ L "\app" in
    exitCode <- LaunchApplication w targetExe appDir ;;
    ret exitCode.

(** Lines 112-116: the handler for [std::exception].  Both strings are
    built inside the handler; an exception raised here leaves [main]. *)
Definition catch_std_exception (w : world) (what : string) : M Z :=
  errorStr <- new_string ("Unexpected error: " ++ what)%string ;;
  errorMsg <- new_string (widen errorStr) ;;
  ShowError w errorMsg ;;
  ret 1.

(** Lines 117-120: the catch-all handler.  The argument of [ShowError] is
    a temporary [std::wstring] built from the literal. *)
Definition catch_all (w : world) : M Z :=
  message <-
    new_string
      (L "An unexpected error occurred while launching the application.") ;;
  ShowError w message ;;
  ret 1.

(** Lines 89-121. *)
Definition main (w : world) : M Z :=
  try_catch (main_body w) (catch_std_exception w) (catch_all w).

(** The exit code of the launcher process.  The C runtime hands the [int]
    that [main] returns to [ExitProcess], whose parameter is an unsigned
    32-bit integer: the process exit code is the same 32 bits read
    unsigned. *)
Definition process_exit_code (r : outcome Z * state) : option DWORD :=
  match fst r with
  | Ret n => Some (n mod 4294967296)
  | _ => None
  end.

(** One run of the launcher from a fresh process. *)
Definition run (w : world) : outcome Z * state := main w initial_state.

(** ** Reading a run *)

(** The value a computation returned, if it returned. *)
Definition returned {A} (r : outcome A * state) : option A :=
  match fst r with
  | Ret a => Some a
  | _ => None
  end.

Definition final (r : outcome Z * state) : state := snd r.

(** The state after some more calls were recorded. *)
Definition after (s : state) (es : list event) : state :=
  {| trace := trace s ++ es;
     handles := handles s;
     last_error := last_error s;
     wcerr_failed := wcerr_failed s;
     memory_exhausted := memory_exhausted s |}.

(** Paths handed to the existence check. *)
Fixpoint checked_paths (t : list event) : list wstring :=
  match t with
  | [] => []
  | EvExists p _ :: t' => p :: checked_paths t'
  | _ :: t' => checked_paths t'
  end.

(** One entry per call of CreateProcessW. *)
Record spawn_call := {
  sc_application : wstring;
  sc_command_line : wstring;
  sc_inherit : bool;
  sc_flags : DWORD;
  sc_directory : wstring;
  sc_answer : spawn_answer
}.

Fixpoint spawn_calls (t : list event) : list spawn_call :=
  match t with
  | [] => []
  | EvCreateProcess app cmd ih fl dir a :: t' =>
      {| sc_application := app; sc_command_line := cmd; sc_inherit := ih;
         sc_flags := fl; sc_directory := dir; sc_answer := a |}
        :: spawn_calls t'
  | _ :: t' => spawn_calls t'
  end.

Definition created (c : spawn_call) : bool :=
  match sc_answer c with
  | Spawned _ => true
  | SpawnFailed _ => false
  end.

(** Child processes that came into being. *)
Definition children (t : list event) : list spawn_call :=
  filter created (spawn_calls t).

(** Texts shown in a modal dialog, in order. *)
Fixpoint dialogs (t : list event) : list wstring :=
  match t with
  | [] => []
  | EvMessageBox text _ _ :: t' => text :: dialogs t'
  | _ :: t' => dialogs t'
  end.

(** Everything written to the error stream. *)
Fixpoint stderr_text (t : list event) : wstring :=
  match t with
  | [] => []
  | EvStderr text :: t' => text ++ stderr_text t'
  | _ :: t' => stderr_text t'
  end.


(** Handles obtained from successful spawns, and handles closed. *)
Fixpoint acquired (t : list event) : list HANDLE :=
  match t with
  | [] => []
  | EvCreateProcess _ _ _ _ _ (Spawned pi) :: t' =>
      hProcess pi :: hThread pi :: acquired t'
  | _ :: t' => acquired t'
  end.

Fixpoint closed (t : list event) : list HANDLE :=
  match t with
  | [] => []
  | EvCloseHandle h :: t' => h :: closed t'
  | _ :: t' => closed t'
  end.

(** The same world with another answer to the exit code query. *)
Definition with_exit_code (w : world) (answer : HANDLE -> option DWORD)
  : world :=
  {| module_file_name := module_file_name w;
     fs_exists := fs_exists w;
     create_process := create_process w;
     wait_for := wait_for w;
     exit_code_of := answer;
     wcerr_output := wcerr_output w;
     current_directory := current_directory w;
     environment := environment w;
     command_line := command_line w |}.

(** ** Names for the pieces of a run *)

(** The directory that [GetExecutableDirectory] hands to [main]. *)
Definition install_dir (w : world) : wstring :=
  match returned (GetExecutableDirectory w initial_state) with
  | Some d => d
  | None => []
  end.

Definition target (w : world) : wstring :=
  install_dir w ++ L "\app\imapviewer.exe".

Definition app_dir (w : world) : wstring :=
  install_dir w ++ L "\app".

Definition quoted (path : wstring) : wstring :=
  [dquote] ++ path ++ [dquote].

Definition caption : wstring := L "IMAPViewer Launcher Error".

Definition not_found_message (path : wstring) : wstring :=
  (L "Could not find the main application at:" ++ [newline])
    ++ path
    ++ ([newline; newline]
          ++ L "Please ensure the application is properly installed.").

Definition spawn_failed_prefix : wstring :=
  L "Failed to launch application. Error code: ".

(** The text each handler of [main] reports for an exception. *)
Definition unexpected_message (e : exn) : wstring :=
  match e with
  | std_exception what => widen ("Unexpected error: " ++ what)
  | other_exception =>
      L "An unexpected error occurred while launching the application."
  end.

(** The calls one error report consists of: the dialog, the insertion of
    the message and the insertion of the line end, each insertion with
    what the stream takes of it. *)
Definition report (w : world) (message : wstring) : list event :=
  [EvMessageBox message caption 16;
   EvStderr (fst (insertion w false message));
   EvStderr (if snd (insertion w false message) then [] else [newline])].

(** Whether the stream has failed after a report. *)
Definition report_fails (w : world) (message : wstring) : bool :=
  snd (insertion w false message).

Definition spawn_event (w : world) (a : spawn_answer) : event :=
  EvCreateProcess (target w) (quoted (target w)) false 0 (app_dir w) a.

(** The exit code variable after the query: initialised to 0, overwritten
    only when the query succeeds. *)
Definition queried_code (w : world) (h : HANDLE) : DWORD :=
  match exit_code_of w h with
  | Some code => code
  | None => 0
  end.

(** ** The ways the body of the try block can go *)

(** What the body does from a fresh process, by the answers of the
    world. *)
Inductive body_kind (w : world) : outcome Z * state -> Prop :=
| BodyNotFound :
    fs_exists w (target w) = ExistsNo ->
    body_kind w
      (Ret 1,
       {| trace :=
            [EvGetModuleFileName MAX_PATH; EvExists (target w) ExistsNo]
              ++ report w (not_found_message (target w));
          handles := [];
          last_error := 0;
          wcerr_failed := report_fails w (not_found_message (target w));
          memory_exhausted := false |})
| BodyThrew what :
    fs_exists w (target w) = ExistsThrows what ->
    body_kind w
      (Throw (std_exception what),
       {| trace :=
            [EvGetModuleFileName MAX_PATH;
             EvExists (target w) (ExistsThrows what)];
          handles := [];
          last_error := 0;
          wcerr_failed := false;
          memory_exhausted := false |})
| BodyFailed e memory_left :
    fs_exists w (target w) = ExistsFails e memory_left ->
    body_kind w
      (Throw e,
       {| trace :=
            [EvGetModuleFileName MAX_PATH;
             EvExists (target w) (ExistsFails e memory_left)];
          handles := [];
          last_error := 0;
          wcerr_failed := false;
          memory_exhausted := negb memory_left |})
| BodySpawnRefused code :
    fs_exists w (target w) = ExistsYes ->
    create_process w (target w) (quoted (target w)) (app_dir w)
    = SpawnFailed code ->
    body_kind w
      (Ret 1,
       {| trace :=
            [EvGetModuleFileName MAX_PATH;
             EvExists (target w) ExistsYes;
             spawn_event w (SpawnFailed code);
             EvGetLastError;
             EvStderr spawn_failed_prefix;
             EvStderr (decimal code);
             EvStderr [newline]];
          handles := [];
          last_error := code;
          wcerr_failed := false;
          memory_exhausted := false |})
| BodyBlocked pi :
    fs_exists w (target w) = ExistsYes ->
    create_process w (target w) (quoted (target w)) (app_dir w)
    = Spawned pi ->
    wait_for w (hProcess pi) = WaitNever ->
    body_kind w
      (Hang,
       {| trace :=
            [EvGetModuleFileName MAX_PATH;
             EvExists (target w) ExistsYes;
             spawn_event w (Spawned pi);
             EvWait (hProcess pi) INFINITE WaitNever];
          handles := [hProcess pi; hThread pi];
          last_error := 0;
          wcerr_failed := false;
          memory_exhausted := false |})
| BodyCompleted pi :
    fs_exists w (target w) = ExistsYes ->
    create_process w (target w) (quoted (target w)) (app_dir w)
    = Spawned pi ->
    wait_for w (hProcess pi) <> WaitNever ->
    body_kind w
      (Ret (static_cast_int (queried_code w (hProcess pi))),
       {| trace :=
            [EvGetModuleFileName MAX_PATH;
             EvExists (target w) ExistsYes;
             spawn_event w (Spawned pi);
             EvWait (hProcess pi) INFINITE (wait_for w (hProcess pi));
             EvGetExitCode (hProcess pi) (exit_code_of w (hProcess pi));
             EvCloseHandle (hProcess pi);
             EvCloseHandle (hThread pi)];
          handles := [];
          last_error := 0;
          wcerr_failed := false;
          memory_exhausted := false |}).

(** ** The ways a run can go *)

Inductive run_kind (w : world) : outcome Z * state -> Prop :=
| RunNotFound :
    fs_exists w (target w) = ExistsNo ->
    run_kind w
      (Ret 1,
       {| trace :=
            [EvGetModuleFileName MAX_PATH; EvExists (target w) ExistsNo]
              ++ report w (not_found_message (target w));
          handles := [];
          last_error := 0;
          wcerr_failed := report_fails w (not_found_message (target w));
          memory_exhausted := false |})
| RunCheckThrew what :
    fs_exists w (target w) = ExistsThrows what ->
    run_kind w
      (Ret 1,
       {| trace :=
            [EvGetModuleFileName MAX_PATH;
             EvExists (target w) (ExistsThrows what)]
              ++ report w (unexpected_message (std_exception what));
          handles := [];
          last_error := 0;
          wcerr_failed :=
            report_fails w (unexpected_message (std_exception what));
          memory_exhausted := false |})
| RunCheckFailed e :
    fs_exists w (target w) = ExistsFails e true ->
    run_kind w
      (Ret 1,
       {| trace :=
            [EvGetModuleFileName MAX_PATH;
             EvExists (target w) (ExistsFails e true)]
              ++ report w (unexpected_message e);
          handles := [];
          last_error := 0;
          wcerr_failed := report_fails w (unexpected_message e);
          memory_exhausted := false |})
| RunHandlerFailed e :
    fs_exists w (target w) = ExistsFails e false ->
    run_kind w
      (Throw (std_exception bad_alloc_what),
       {| trace :=
            [EvGetModuleFileName MAX_PATH;
             EvExists (target w) (ExistsFails e false)];
          handles := [];
          last_error := 0;
          wcerr_failed := false;
          memory_exhausted := true |})
| RunSpawnRefused code :
    fs_exists w (target w) = ExistsYes ->
    create_process w (target w) (quoted (target w)) (app_dir w)
    = SpawnFailed code ->
    run_kind w
      (Ret 1,
       {| trace :=
            [EvGetModuleFileName MAX_PATH;
             EvExists (target w) ExistsYes;
             spawn_event w (SpawnFailed code);
             EvGetLastError;
             EvStderr spawn_failed_prefix;
             EvStderr (decimal code);
             EvStderr [newline]];
          handles := [];
          last_error := code;
          wcerr_failed := false;
          memory_exhausted := false |})
| RunBlocked pi :
    fs_exists w (target w) = ExistsYes ->
    create_process w (target w) (quoted (target w)) (app_dir w)
    = Spawned pi ->
    wait_for w (hProcess pi) = WaitNever ->
    run_kind w
      (Hang,
       {| trace :=
            [EvGetModuleFileName MAX_PATH;
             EvExists (target w) ExistsYes;
             spawn_event w (Spawned pi);
             EvWait (hProcess pi) INFINITE WaitNever];
          handles := [hProcess pi; hThread pi];
          last_error := 0;
          wcerr_failed := false;
          memory_exhausted := false |})
| RunCompleted pi :
    fs_exists w (target w) = ExistsYes ->
    create_process w (target w) (quoted (target w)) (app_dir w)
    = Spawned pi ->
    wait_for w (hProcess pi) <> WaitNever ->
    run_kind w
      (Ret (static_cast_int (queried_code w (hProcess pi))),
       {| trace :=
            [EvGetModuleFileName MAX_PATH;
             EvExists (target w) ExistsYes;
             spawn_event w (Spawned pi);
             EvWait (hProcess pi) INFINITE (wait_for w (hProcess pi));
             EvGetExitCode (hProcess pi) (exit_code_of w (hProcess pi));
             EvCloseHandle (hProcess pi);
             EvCloseHandle (hThread pi)];
          handles := [];
          last_error := 0;
          wcerr_failed := false;
          memory_exhausted := false |}).

(** ** Sample worlds *)

(** An error stream in the default locale that hands over what precedes
    the first unit it cannot convert, and then fails. *)
Definition c_locale (text : wstring) : wstring * bool :=
  (ascii_prefix text, true).

Module Sample.

Definition child : PROCESS_INFORMATION := {| hProcess := 100; hThread := 104 |}.

(** An installed launcher whose target runs and exits with [code]. *)
Definition exits (code : DWORD) : world :=
  {| module_file_name := L "C:\Mail\IMAPViewer.exe";
     fs_exists := fun _ => ExistsYes;
     create_process := fun _ _ _ => Spawned child;
     wait_for := fun _ => WaitSignaled;
     exit_code_of := fun _ => Some code;
     wcerr_output := c_locale;
     current_directory := L "C:\Users\me\Desktop";
     environment := [(L "PATH", L "C:\Windows")];
     command_line := [L "IMAPViewer.exe"; L "--inbox"] |}.

(** The target file is absent. *)
Definition missing : world :=
  {| module_file_name := L "C:\Mail\IMAPViewer.exe";
     fs_exists := fun _ => ExistsNo;
     create_process := fun _ _ _ => SpawnFailed 2;
     wait_for := fun _ => WaitFailed;
     exit_code_of := fun _ => None;
     wcerr_output := c_locale;
     current_directory := L "C:\Users\me\Desktop";
     environment := [];
     command_line := [L "IMAPViewer.exe"] |}.

(** The target file is there but is no executable image:
    ERROR_BAD_EXE_FORMAT. *)
Definition bad_image : world :=
  {| module_file_name := L "C:\Mail\IMAPViewer.exe";
     fs_exists := fun _ => ExistsYes;
     create_process := fun _ _ _ => SpawnFailed 193;
     wait_for := fun _ => WaitFailed;
     exit_code_of := fun _ => None;
     wcerr_output := c_locale;
     current_directory := L "C:\Users\me\Desktop";
     environment := [];
     command_line := [L "IMAPViewer.exe"] |}.

(** The child runs to its end but its exit code cannot be queried. *)
Definition query_fails : world :=
  {| module_file_name := L "C:\Mail\IMAPViewer.exe";
     fs_exists := fun _ => ExistsYes;
     create_process := fun _ _ _ => Spawned child;
     wait_for := fun _ => WaitSignaled;
     exit_code_of := fun _ => None;
     wcerr_output := c_locale;
     current_directory := L "C:\Users\me\Desktop";
     environment := [];
     command_line := [L "IMAPViewer.exe"] |}.

(** The existence check itself raises. *)
Definition unreadable : world :=
  {| module_file_name := L "C:\Mail\IMAPViewer.exe";
     fs_exists := fun _ => ExistsThrows "filesystem error: status: Access is denied";
     create_process := fun _ _ _ => SpawnFailed 5;
     wait_for := fun _ => WaitFailed;
     exit_code_of := fun _ => None;
     wcerr_output := c_locale;
     current_directory := L "C:\Users\me\Desktop";
     environment := [];
     command_line := [L "IMAPViewer.exe"] |}.

(** The child never terminates. *)
Definition hangs : world :=
  {| module_file_name := L "C:\Mail\IMAPViewer.exe";
     fs_exists := fun _ => ExistsYes;
     create_process := fun _ _ _ => Spawned child;
     wait_for := fun _ => WaitNever;
     exit_code_of := fun _ => None;
     wcerr_output := c_locale;
     current_directory := L "C:\Users\me\Desktop";
     environment := [];
     command_line := [L "IMAPViewer.exe"] |}.

End Sample.

(** The spawn call of the sample installation. *)
Definition sample_spawn : spawn_call :=
  {| sc_application := L "C:\Mail\app\imapviewer.exe";
     sc_command_line := [dquote] ++ L "C:\Mail\app\imapviewer.exe" ++ [dquote];
     sc_inherit := false;
     sc_flags := 0;
     sc_directory := L "C:\Mail\app";
     sc_answer := Spawned Sample.child |}.

(** What the existence check of [Sample.unreadable] throws. *)
Definition access_denied : exn :=
  std_exception "filesystem error: status: Access is denied".

(** ** Further readings of a trace *)

(** Whether an event waits on handle [h] or queries its exit code. *)
Definition consults (h : HANDLE) (e : event) : bool :=
  match e with
  | EvWait h' _ _ => Z.eqb h h'
  | EvGetExitCode h' _ => Z.eqb h h'
  | _ => false
  end.

(** Some handle is waited on or queried after it was closed. *)
Fixpoint used_after_close (t : list event) : bool :=
  match t with
  | [] => false
  | EvCloseHandle h :: t' => existsb (consults h) t' || used_after_close t'
  | _ :: t' => used_after_close t'
  end.

(** Handles that a wait, an exit code query or a close was applied to. *)
Fixpoint handle_uses (t : list event) : list HANDLE :=
  match t with
  | [] => []
  | EvWait h _ _ :: t' => h :: handle_uses t'
  | EvGetExitCode h _ :: t' => h :: handle_uses t'
  | EvCloseHandle h :: t' => h :: handle_uses t'
  | _ :: t' => handle_uses t'
  end.

(** The event a spawn call was read from. *)
Definition event_of_call (c : spawn_call) : event :=
  EvCreateProcess (sc_application c) (sc_command_line c) (sc_inherit c)
    (sc_flags c) (sc_directory c) (sc_answer c).

(** All bytes of a narrow string are below 128. *)
Definition is_ascii (s : string) : bool :=
  forallb (fun a => Z.of_N (N_of_ascii a) <? 128) (list_ascii_of_string s).

(** More sample worlds. *)
Module Edge.

(** The wait fails and the child is reported as still running
    (STILL_ACTIVE is 259). *)
Definition wait_fails : world :=
  {| module_file_name := L "C:\Mail\IMAPViewer.exe";
     fs_exists := fun _ => ExistsYes;
     create_process := fun _ _ _ => Spawned Sample.child;
     wait_for := fun _ => WaitFailed;
     exit_code_of := fun _ => Some 259;
     wcerr_output := c_locale;
     current_directory := L "C:\Users\me\Desktop";
     environment := [];
     command_line := [L "IMAPViewer.exe"] |}.

(** The module file name carries no backslash at all. *)
Definition bare_name : world :=
  {| module_file_name := L "IMAPViewer.exe";
     fs_exists := fun _ => ExistsYes;
     create_process := fun _ _ _ => Spawned Sample.child;
     wait_for := fun _ => WaitSignaled;
     exit_code_of := fun _ => Some 0;
     wcerr_output := c_locale;
     current_directory := L "C:\Mail";
     environment := [];
     command_line := [L "IMAPViewer.exe"] |}.




End Edge.

(** ** Stepping through the monad *)

Lemma bind_Ret {A B} (m : M A) (k : A -> M B) s a s' :
  m s = (Ret a, s') -> bind m k s = k a s'.
Proof. intros E. unfold bind. now rewrite E. Qed.

Lemma bind_Throw {A B} (m : M A) (k : A -> M B) s e s' :
  m s = (Throw e, s') -> bind m k s = (Throw e, s').
Proof. intros E. unfold bind. now rewrite E. Qed.

Lemma bind_Hang {A B} (m : M A) (k : A -> M B) s s' :
  m s = (Hang, s') -> bind m k s = (Hang, s').
Proof. intros E. unfold bind. now rewrite E. Qed.

Lemma bind_ret_right {A} (m : M A) s : bind m (fun a => ret a) s = m s.
Proof. unfold bind, ret. now destruct (m s) as [[a | e | ] s']. Qed.

Lemma after_after s es es' : after (after s es) es' = after s (es ++ es').
Proof. unfold after; cbn. now rewrite <- app_assoc. Qed.

Lemma remove_pair (a b : HANDLE) :
  remove Z.eq_dec b (remove Z.eq_dec a [a; b]) = [].
Proof.
  cbn. destruct (Z.eq_dec a a) as [_ | N]; [ | contradiction ].
  destruct (Z.eq_dec a b) as [E | N]; cbn.
  - reflexivity.
  - destruct (Z.eq_dec b b); [ reflexivity | contradiction ].
Qed.

(** ** The error stream *)

Lemma insertion_ascii w text :
  forallb ascii_unit text = true -> insertion w false text = (text, false).
Proof. intros A. unfold insertion. now rewrite A. Qed.

Lemma insertion_endl w failed :
  insertion w failed [newline]
  = (if failed then [] else [newline], failed).
Proof. now destruct failed. Qed.

Lemma L_ascii s : is_ascii s = true -> forallb ascii_unit (L s) = true.
Proof.
  unfold is_ascii, L.
  induction (list_ascii_of_string s) as [ | a l IH]; cbn [forallb map].
  - reflexivity.
  - intros A. apply andb_prop in A as [Ha Hl].
    rewrite (IH Hl), andb_true_r. unfold ascii_unit. rewrite Ha, andb_true_r.
    apply Z.leb_le. apply N2Z.is_nonneg.
Qed.

Lemma decimal_ascii n : forallb ascii_unit (decimal n) = true.
Proof.
  unfold decimal, L. generalize (N.to_uint (Z.to_N n)) as u.
  induction u; cbn; auto.
Qed.

Lemma forallb_ascii_app a b :
  forallb ascii_unit a = true -> forallb ascii_unit b = true ->
  forallb ascii_unit (a ++ b) = true.
Proof. intros Ha Hb. now rewrite forallb_app, Ha, Hb. Qed.

Lemma wcerr_ascii w text s :
  wcerr_failed s = false ->
  forallb ascii_unit text = true ->
  wcerr w text s = (Ret tt, after s [EvStderr text]).
Proof.
  intros G A. unfold wcerr, after. rewrite G, (insertion_ascii w text A).
  reflexivity.
Qed.

(** ** What each function does *)

Lemma GetExecutableDirectory_run w s :
  GetExecutableDirectory w s
  = (Ret (install_dir w), after s [EvGetModuleFileName MAX_PATH]).
Proof.
  unfold install_dir, returned, GetExecutableDirectory, GetModuleFileNameW,
    bind, log, ret, after; cbn.
  destruct (find_last_of _ _); reflexivity.
Qed.

Lemma ShowError_run w message s :
  wcerr_failed s = false ->
  ShowError w message s
  = (Ret tt,
     {| trace := trace s ++ report w message;
        handles := handles s;
        last_error := last_error s;
        wcerr_failed := report_fails w message;
        memory_exhausted := memory_exhausted s |}).
Proof.
  intros G.
  unfold ShowError, MessageBoxW, wcerr_endl, wcerr, bind, log, report,
    report_fails.
  cbn [trace handles last_error wcerr_failed memory_exhausted].
  rewrite G, insertion_endl. cbn [fst snd].
  now rewrite <- !app_assoc.
Qed.

Lemma FileExists_yes w path s :
  fs_exists w path = ExistsYes ->
  FileExists w path s = (Ret true, after s [EvExists path ExistsYes]).
Proof.
  intros E. unfold FileExists, fs_exists_call, bind, log, after; cbn.
  now rewrite E.
Qed.

Lemma FileExists_no w path s :
  fs_exists w path = ExistsNo ->
  FileExists w path s = (Ret false, after s [EvExists path ExistsNo]).
Proof.
  intros E. unfold FileExists, fs_exists_call, bind, log, after; cbn.
  now rewrite E.
Qed.

Lemma FileExists_throws w path what s :
  fs_exists w path = ExistsThrows what ->
  FileExists w path s
  = (Throw (std_exception what), after s [EvExists path (ExistsThrows what)]).
Proof.
  intros E. unfold FileExists, fs_exists_call, bind, log, after; cbn.
  now rewrite E.
Qed.

Lemma FileExists_fails w path e memory_left s :
  fs_exists w path = ExistsFails e memory_left ->
  FileExists w path s
  = (Throw e,
     {| trace := trace s ++ [EvExists path (ExistsFails e memory_left)];
        handles := handles s;
        last_error := last_error s;
        wcerr_failed := wcerr_failed s;
        memory_exhausted := negb memory_left |}).
Proof.
  intros E. unfold FileExists, fs_exists_call, bind, log; cbn.
  now rewrite E.
Qed.

Lemma LaunchApplication_refused w path dir code s :
  wcerr_failed s = false ->
  create_process w path (quoted path) dir = SpawnFailed code ->
  LaunchApplication w path dir s
  = (Ret 1,
     {| trace := trace s ++
          [EvCreateProcess path (quoted path) false 0 dir (SpawnFailed code);
           EvGetLastError;
           EvStderr spawn_failed_prefix;
           EvStderr (decimal code);
           EvStderr [newline]];
        handles := handles s;
        last_error := code;
        wcerr_failed := false;
        memory_exhausted := memory_exhausted s |}).
Proof.
  intros G E.
  unfold LaunchApplication, CreateProcessW. fold (quoted path). rewrite E.
  fold spawn_failed_prefix.
  unfold GetLastError, wcerr_endl, bind, log, ret.
  cbn [trace handles last_error wcerr_failed memory_exhausted].
  rewrite wcerr_ascii; [ | exact G | reflexivity ].
  rewrite wcerr_ascii; [ | exact G | apply decimal_ascii ].
  rewrite wcerr_ascii; [ | exact G | reflexivity ].
  unfold after.
  cbn [trace handles last_error wcerr_failed memory_exhausted].
  rewrite G. now rewrite <- !app_assoc.
Qed.

Lemma LaunchApplication_blocked w path dir pi s :
  create_process w path (quoted path) dir = Spawned pi ->
  wait_for w (hProcess pi) = WaitNever ->
  LaunchApplication w path dir s
  = (Hang,
     {| trace := trace s ++
          [EvCreateProcess path (quoted path) false 0 dir (Spawned pi);
           EvWait (hProcess pi) INFINITE WaitNever];
        handles := handles s ++ [hProcess pi; hThread pi];
        last_error := last_error s;
        wcerr_failed := wcerr_failed s;
        memory_exhausted := memory_exhausted s |}).
Proof.
  intros E W.
  unfold LaunchApplication, CreateProcessW. fold (quoted path). rewrite E.
  unfold WaitForSingleObject, bind, log, ret; cbn. rewrite W; cbn.
  now rewrite <- !app_assoc.
Qed.

Lemma LaunchApplication_completed w path dir pi s :
  create_process w path (quoted path) dir = Spawned pi ->
  wait_for w (hProcess pi) <> WaitNever ->
  LaunchApplication w path dir s
  = (Ret (static_cast_int (queried_code w (hProcess pi))),
     {| trace := trace s ++
          [EvCreateProcess path (quoted path) false 0 dir (Spawned pi);
           EvWait (hProcess pi) INFINITE (wait_for w (hProcess pi));
           EvGetExitCode (hProcess pi) (exit_code_of w (hProcess pi));
           EvCloseHandle (hProcess pi);
           EvCloseHandle (hThread pi)];
        handles :=
          remove Z.eq_dec (hThread pi)
            (remove Z.eq_dec (hProcess pi)
               (handles s ++ [hProcess pi; hThread pi]));
        last_error := last_error s;
        wcerr_failed := wcerr_failed s;
        memory_exhausted := memory_exhausted s |}).
Proof.
  intros E W.
  unfold LaunchApplication, CreateProcessW. fold (quoted path). rewrite E.
  unfold WaitForSingleObject, GetExitCodeProcess, CloseHandle, queried_code,
    bind, log, ret; cbn.
  destruct (wait_for w (hProcess pi)); try contradiction; cbn;
    destruct (exit_code_of w (hProcess pi)); cbn;
    now rewrite <- !app_assoc.
Qed.

Lemma new_string_succeeds {A} (value : A) s :
  memory_exhausted s = false -> new_string value s = (Ret value, s).
Proof. intros Mem. unfold new_string. now rewrite Mem. Qed.

Lemma new_string_fails {A} (value : A) s :
  memory_exhausted s = true ->
  new_string value s = (Throw (std_exception bad_alloc_what), s).
Proof. intros Mem. unfold new_string. now rewrite Mem. Qed.

(** A handler that finds memory reports and returns 1. *)
Lemma handler_reports w e s :
  memory_exhausted s = false ->
  wcerr_failed s = false ->
  match e with
  | std_exception what => catch_std_exception w what s
  | other_exception => catch_all w s
  end
  = (Ret 1,
     {| trace := trace s ++ report w (unexpected_message e);
        handles := handles s;
        last_error := last_error s;
        wcerr_failed := report_fails w (unexpected_message e);
        memory_exhausted := memory_exhausted s |}).
Proof.
  intros Mem G.
  destruct e as [what | ]; unfold catch_std_exception, catch_all;
    rewrite !(bind_Ret _ _ _ _ _ (new_string_succeeds _ _ Mem));
    rewrite (bind_Ret _ _ _ _ _ (ShowError_run _ _ _ G)); reflexivity.
Qed.

(** A handler that finds none throws [std::bad_alloc] before it has shown
    or written anything. *)
Lemma handler_runs_out_of_memory w e s :
  memory_exhausted s = true ->
  match e with
  | std_exception what => catch_std_exception w what s
  | other_exception => catch_all w s
  end
  = (Throw (std_exception bad_alloc_what), s).
Proof.
  intros Mem.
  destruct e as [what | ]; unfold catch_std_exception, catch_all;
    now rewrite (bind_Throw _ _ _ _ _ (new_string_fails _ _ Mem)).
Qed.


(** What the guarded body returns or blocks on passes through unchanged. *)
Lemma try_catch_passes (w : world) (body : M Z) s r s' :
  body s = (r, s') ->
  (forall e, r <> Throw e) ->
  try_catch body (catch_std_exception w) (catch_all w) s = (r, s').
Proof.
  intros B N. unfold try_catch. rewrite B.
  destruct r as [a | e | ]; try reflexivity.
  now contradiction (N e).
Qed.

(** ** The body of the try block *)

Lemma main_body_classified w : body_kind w (main_body w initial_state).
Proof.
  unfold main_body.
  rewrite (bind_Ret _ _ _ _ _ (GetExecutableDirectory_run w initial_state)).
  cbv zeta. fold (target w). fold (app_dir w).
  fold (not_found_message (target w)).
  destruct (fs_exists w (target w)) as [ | | what | e memory_left] eqn:E.
  - rewrite (bind_Ret _ _ _ _ _ (FileExists_yes _ _ _ E)).
    cbn [negb]. rewrite after_after, bind_ret_right. cbn [app].
    destruct (create_process w (target w) (quoted (target w)) (app_dir w))
      as [pi | code] eqn:C.
    + assert (W : wait_for w (hProcess pi) = WaitNever
                  \/ wait_for w (hProcess pi) <> WaitNever)
        by (destruct (wait_for w (hProcess pi)); auto; right; discriminate).
      destruct W as [W | W].
      * rewrite (LaunchApplication_blocked _ _ _ _ _ C W).
        apply (BodyBlocked w pi E C W).
      * rewrite (LaunchApplication_completed _ _ _ _ _ C W).
        cbn [after initial_state trace handles last_error wcerr_failed
               memory_exhausted app].
        rewrite remove_pair.
        apply (BodyCompleted w pi E C W).
    + erewrite LaunchApplication_refused by (reflexivity || exact C).
      apply (BodySpawnRefused w code E C).
  - rewrite (bind_Ret _ _ _ _ _ (FileExists_no _ _ _ E)).
    cbn [negb]. rewrite after_after.
    erewrite bind_Ret by (apply ShowError_run; reflexivity).
    apply (BodyNotFound w E).
  - rewrite (bind_Throw _ _ _ _ _ (FileExists_throws _ _ _ _ E)).
    rewrite after_after.
    apply (BodyThrew w what E).
  - rewrite (bind_Throw _ _ _ _ _ (FileExists_fails _ _ _ _ _ E)).
    apply (BodyFailed w e memory_left E).
Qed.

(** ** The ways a run goes *)

(** How a handler leaves the state in which the body threw. *)
Ltac run_handler lemma w e :=
  match goal with
  | |- context [ {| trace := ?t; handles := ?h; last_error := ?l;
                    wcerr_failed := ?f; memory_exhausted := ?m |} ] =>
      let Hh := fresh "Hh" in
      pose proof (lemma w e
                    {| trace := t; handles := h; last_error := l;
                       wcerr_failed := f; memory_exhausted := m |}) as Hh;
      cbv beta iota in Hh; rewrite Hh by reflexivity; clear Hh
  end.

Lemma run_classified w : run_kind w (run w).
Proof.
  unfold run, main, try_catch.
  destruct (main_body_classified w)
    as [E | what E | e memory_left E | code E C | pi E C W | pi E C W];
    cbv beta iota.
  - apply (RunNotFound w E).
  - run_handler handler_reports w (std_exception what).
    apply (RunCheckThrew w what E).
  - destruct memory_left, e as [what | ]; cbv beta iota.
    + run_handler handler_reports w (std_exception what).
      apply (RunCheckFailed w _ E).
    + run_handler handler_reports w other_exception.
      apply (RunCheckFailed w _ E).
    + run_handler handler_runs_out_of_memory w (std_exception what).
      apply (RunHandlerFailed w _ E).
    + run_handler handler_runs_out_of_memory w other_exception.
      apply (RunHandlerFailed w _ E).
  - apply (RunSpawnRefused w code E C).
  - apply (RunBlocked w pi E C W).
  - apply (RunCompleted w pi E C W).
Qed.

(** A tactic for statements about [run w]: one goal per kind of run, with
    the run replaced by what it evaluates to. *)
Ltac by_run_kind w :=
  let K := fresh "K" in
  pose proof (run_classified w) as K;
  revert K; generalize (run w); intros ? K;
  destruct K; unfold final, returned, spawn_event, report;
  cbn [fst snd trace handles last_error app].

(** From [In e t] for an explicit [t], keep the positions where [e] fits. *)
Ltac find_event H :=
  cbn [In] in H;
  repeat (destruct H as [H | H]; [ try discriminate H | ]);
  try contradiction.

(** The run as an equation, for some kinds. *)
Lemma run_completed w pi :
  fs_exists w (target w) = ExistsYes ->
  create_process w (target w) (quoted (target w)) (app_dir w) = Spawned pi ->
  wait_for w (hProcess pi) <> WaitNever ->
  run w
  = (Ret (static_cast_int (queried_code w (hProcess pi))),
     {| trace :=
          [EvGetModuleFileName MAX_PATH;
           EvExists (target w) ExistsYes;
           spawn_event w (Spawned pi);
           EvWait (hProcess pi) INFINITE (wait_for w (hProcess pi));
           EvGetExitCode (hProcess pi) (exit_code_of w (hProcess pi));
           EvCloseHandle (hProcess pi);
           EvCloseHandle (hThread pi)];
        handles := [];
        last_error := 0;
        wcerr_failed := false;
        memory_exhausted := false |}).
Proof. intros E C W. destruct (run_classified w); congruence. Qed.

(** The directory is a function of the module file name alone. *)
Lemma install_dir_ext w w' :
  module_file_name w' = module_file_name w -> install_dir w' = install_dir w.
Proof.
  intros E.
  unfold install_dir, returned, GetExecutableDirectory, GetModuleFileNameW,
    bind, log, ret; cbn.
  now rewrite E.
Qed.

Lemma install_dir_returned w D s s' :
  GetExecutableDirectory w s = (Ret D, s') -> D = install_dir w.
Proof. rewrite GetExecutableDirectory_run. congruence. Qed.

(** [find_last_of] on a path: nothing to find without a separator, and the
    last separator is the one before the file name. *)
Lemma find_last_of_absent (name set : wstring) :
  (forall c, In c name -> existsb (Z.eqb c) set = false) ->
  find_last_of name set = None.
Proof.
  induction name as [ | c name IH]; intros Hno; cbn.
  - reflexivity.
  - rewrite IH by (intros d Hd; apply Hno; now right).
    now rewrite (Hno c (or_introl eq_refl)).
Qed.

Lemma find_last_of_separator (dir name : wstring) :
  ~ In backslash name ->
  find_last_of (dir ++ backslash :: name) [backslash]
  = Some (List.length dir).
Proof.
  intros Hno.
  assert (Hname : find_last_of name [backslash] = None).
  { apply find_last_of_absent. intros c Hc. cbn.
    destruct (Z.eqb_spec c backslash) as [-> | _]; [ contradiction | easy ]. }
  induction dir as [ | c dir IH]; cbn.
  - now rewrite Hname.
  - cbn in IH. now rewrite IH.
Qed.

(** The resolved directory is the parent of the running executable. *)
Lemma install_dir_parent w dir name :
  module_file_name w = dir ++ backslash :: name ->
  ~ In backslash name ->
  install_dir w = dir.
Proof.
  intros E Hno.
  unfold install_dir, returned, GetExecutableDirectory, GetModuleFileNameW,
    bind, log, ret. cbn [fst].
  rewrite E.
  change (L "\") with [backslash].
  rewrite (find_last_of_separator dir name Hno). cbn [fst].
  unfold substr. cbn [skipn].
  rewrite firstn_app, Nat.sub_diag, firstn_all. cbn.
  apply app_nil_r.
Qed.

(** Without any separator in the module file name it is the dot. *)
Lemma install_dir_default w :
  ~ In backslash (module_file_name w) ->
  install_dir w = L ".".
Proof.
  intros Hno.
  unfold install_dir, returned, GetExecutableDirectory, GetModuleFileNameW,
    bind, log, ret. cbn [fst].
  change (L "\") with [backslash].
  rewrite find_last_of_absent; [ reflexivity | ].
  intros c Hc. cbn.
  destruct (Z.eqb_spec c backslash) as [-> | _]; [ contradiction | easy ].
Qed.

(** [static_cast<int>] on the range of a [DWORD]. *)
Lemma static_cast_int_low d :
  0 <= d < 2147483648 -> static_cast_int d = d.
Proof.
  intros R. unfold static_cast_int.
  rewrite Z.mod_small by lia. lia.
Qed.

Lemma static_cast_int_high d :
  2147483648 <= d < 4294967296 -> static_cast_int d = d - 4294967296.
Proof.
  intros R. unfold static_cast_int.
  replace (d + 2147483648) with (d - 2147483648 + 1 * 4294967296) by lia.
  rewrite Z.mod_add by lia. rewrite Z.mod_small by lia. lia.
Qed.

Lemma static_cast_int_mod d :
  0 <= d < 4294967296 -> static_cast_int d mod 4294967296 = d.
Proof.
  intros R. destruct (Z_lt_ge_dec d 2147483648) as [Lo | Hi].
  - rewrite static_cast_int_low by lia. apply Z.mod_small; lia.
  - rewrite static_cast_int_high by lia.
    replace (d - 4294967296) with (d + (-1) * 4294967296) by lia.
    rewrite Z.mod_add by lia. apply Z.mod_small; lia.
Qed.

(** ** Properties of the launcher *)

(** A failed spawn is written to the error stream only: for every world
    in which CreateProcessW fails with [code], [main] returns 1, the error
    stream holds the prefix, the decimal code and a line end, and no
    dialog is shown. *)
Lemma spawn_failure_goes_to_stderr w app cmd ih fl dir code :
  In (EvCreateProcess app cmd ih fl dir (SpawnFailed code))
    (trace (final (run w))) ->
  returned (run w) = Some 1
  /\ stderr_text (trace (final (run w)))
     = spawn_failed_prefix ++ decimal code ++ [newline]
  /\ dialogs (trace (final (run w))) = [].
Proof.
  by_run_kind w; intros Hin; find_event Hin.
  inversion Hin; subst.
  cbn [dialogs stderr_text]. repeat split; reflexivity.
Qed.

(** C1 (spawn failure), on the code.  The target exists but is no
    executable image, so CreateProcessW fails with error 193.  [main]
    returns 1 and the error stream names the code, but no dialog is
    shown: [LaunchApplication] writes to the error stream itself and does
    not go through [ShowError]. *)
Theorem spawn_failure_shows_no_dialog :
  spawn_calls (trace (final (run Sample.bad_image)))
  = [{| sc_application := L "C:\Mail\app\imapviewer.exe";
        sc_command_line := quoted (L "C:\Mail\app\imapviewer.exe");
        sc_inherit := false;
        sc_flags := 0;
        sc_directory := L "C:\Mail\app";
        sc_answer := SpawnFailed 193 |}]
  /\ returned (run Sample.bad_image) = Some 1
  /\ stderr_text (trace (final (run Sample.bad_image)))
     = L "Failed to launch application. Error code: 193" ++ [newline]
  /\ dialogs (trace (final (run Sample.bad_image))) = [].
Proof. repeat split. Qed.

(** C2 (exit code forwarding).  When the child terminates with exit code
    [N], with [0 <= N < 2^32], the exit code of the launcher process is
    [N] exactly.  The [int] that [main] returns is [N] converted by
    [static_cast<int>]: [N] itself below [2^31] and [N - 2^32] from [2^31]
    up, the same 32 bits. *)
Theorem exit_code_forwarding w h N :
  In (EvWait h INFINITE WaitSignaled) (trace (final (run w))) ->
  In (EvGetExitCode h (Some N)) (trace (final (run w))) ->
  0 <= N < 4294967296 ->
  process_exit_code (run w) = Some N
  /\ returned (run w) = Some (static_cast_int N)
  /\ static_cast_int N mod 4294967296 = N
  /\ (N < 2147483648 -> static_cast_int N = N)
  /\ (2147483648 <= N -> static_cast_int N = N - 4294967296).
Proof.
  unfold process_exit_code.
  by_run_kind w; intros Hw Hq Range; find_event Hq.
  injection Hq as _ Q.
  unfold queried_code. rewrite Q.
  repeat split.
  - now rewrite static_cast_int_mod.
  - now apply static_cast_int_mod.
  - intros Lo. apply static_cast_int_low. lia.
  - intros Hi. apply static_cast_int_high. lia.
Qed.

(** At the access violation status 3221225477 (hexadecimal C0000005): the
    [int] returned by [main] is negative, the exit code of the process is
    the status itself. *)
Lemma exit_code_forwarding_witness :
  process_exit_code (run (Sample.exits 3221225477)) = Some 3221225477
  /\ returned (run (Sample.exits 3221225477))
     = Some (static_cast_int 3221225477)
  /\ static_cast_int 3221225477 mod 4294967296 = 3221225477
  /\ (3221225477 < 2147483648 -> static_cast_int 3221225477 = 3221225477)
  /\ (2147483648 <= 3221225477 ->
      static_cast_int 3221225477 = 3221225477 - 4294967296).
Proof.
  apply (exit_code_forwarding (Sample.exits 3221225477) 100 3221225477).
  - right. right. right. left. reflexivity.
  - right. right. right. right. left. reflexivity.
  - lia.
Defined.





Section Paths.

(** Two worlds: [w] is where the directory [D] was resolved, [w'] is any
    world with the same module file name.  Its file system, current
    directory, environment and command line are arbitrary. *)
Variables w w' : world.
Variable D : wstring.
Variables s s' : state.
Hypothesis resolved : GetExecutableDirectory w s = (Ret D, s').
Hypothesis same_module : module_file_name w' = module_file_name w.

Lemma target_is : target w' = D ++ L "\app\imapviewer.exe".
Proof.
  unfold target.
  now rewrite (install_dir_ext _ _ same_module),
    <- (install_dir_returned _ _ _ _ resolved).
Qed.

Lemma app_dir_is : app_dir w' = D ++ L "\app".
Proof.
  unfold app_dir.
  now rewrite (install_dir_ext _ _ same_module),
    <- (install_dir_returned _ _ _ _ resolved).
Qed.

(** C4 (path derivation).  For every directory [D] returned by
    [GetExecutableDirectory], the path that [main] checks for existence,
    and the application path of any spawn, is [D], the separator, [app],
    the separator, [imapviewer.exe].  It is the same in every world that
    agrees on the module file name, whatever that world's current
    directory, environment, command line or file system. *)
Theorem target_path_derivation :
  checked_paths (trace (final (run w')))
  = [D ++ [backslash] ++ L "app" ++ [backslash] ++ L "imapviewer.exe"]
  /\ forall c, In c (spawn_calls (trace (final (run w')))) ->
       sc_application c
       = D ++ [backslash] ++ L "app" ++ [backslash] ++ L "imapviewer.exe".
Proof.
  change (D ++ [backslash] ++ L "app" ++ [backslash] ++ L "imapviewer.exe")
    with (D ++ L "\app\imapviewer.exe").
  rewrite <- target_is.
  by_run_kind w'; cbn [checked_paths spawn_calls In]; split;
    try reflexivity; intros c Hin; try contradiction;
    destruct Hin as [<- | []]; reflexivity.
Qed.

(** C8 (command line).  Whenever the launcher calls CreateProcessW, the
    command line is the target path [D\app\imapviewer.exe] between two
    double quotes and nothing more; it is the same whatever the command
    line of the launcher itself was. *)
Theorem child_command_line c :
  In c (spawn_calls (trace (final (run w')))) ->
  sc_command_line c = [dquote] ++ sc_application c ++ [dquote]
  /\ sc_command_line c
     = [dquote] ++ (D ++ L "\app\imapviewer.exe") ++ [dquote].
Proof.
  rewrite <- target_is.
  by_run_kind w'; cbn [spawn_calls In]; intros Hin; try contradiction;
    destruct Hin as [<- | []]; split; reflexivity.
Qed.

(** C9 (working directory).  Whenever the launcher calls CreateProcessW,
    the directory it passes for the child is [D\app], whatever the
    current directory of the launcher was. *)
Theorem child_working_directory c :
  In c (spawn_calls (trace (final (run w')))) ->
  sc_directory c = D ++ [backslash] ++ L "app".
Proof.
  change (D ++ [backslash] ++ L "app") with (D ++ L "\app").
  rewrite <- app_dir_is.
  by_run_kind w'; cbn [spawn_calls In]; intros Hin; try contradiction;
    destruct Hin as [<- | []]; reflexivity.
Qed.

End Paths.

(** C4 at the sample installation: resolved where the target is missing,
    used where it runs, from another directory and with arguments. *)
Lemma target_path_derivation_witness :
  checked_paths (trace (final (run (Sample.exits 0))))
  = [L "C:\Mail" ++ [backslash] ++ L "app" ++ [backslash] ++ L "imapviewer.exe"]
  /\ forall c, In c (spawn_calls (trace (final (run (Sample.exits 0))))) ->
       sc_application c
       = L "C:\Mail" ++ [backslash] ++ L "app" ++ [backslash]
           ++ L "imapviewer.exe".
Proof.
  apply (target_path_derivation Sample.missing (Sample.exits 0) (L "C:\Mail")
           initial_state
           (after initial_state [EvGetModuleFileName MAX_PATH])).
  - reflexivity.
  - reflexivity.
Defined.

Lemma child_command_line_witness :
  sc_command_line sample_spawn
  = [dquote] ++ sc_application sample_spawn ++ [dquote]
  /\ sc_command_line sample_spawn
     = [dquote] ++ (L "C:\Mail" ++ L "\app\imapviewer.exe") ++ [dquote].
Proof.
  apply (child_command_line Sample.missing (Sample.exits 42) (L "C:\Mail")
           initial_state
           (after initial_state [EvGetModuleFileName MAX_PATH])).
  - reflexivity.
  - reflexivity.
  - left. reflexivity.
Defined.

Lemma child_working_directory_witness :
  sc_directory sample_spawn = L "C:\Mail" ++ [backslash] ++ L "app".
Proof.
  apply (child_working_directory Sample.missing (Sample.exits 42)
           (L "C:\Mail") initial_state
           (after initial_state [EvGetModuleFileName MAX_PATH])).
  - reflexivity.
  - reflexivity.
  - left. reflexivity.
Defined.

(** C5 (single spawn).  In every run CreateProcessW is called at most once
    and at most one child comes into being; a call that was made is the
    only one, so a failed spawn is not tried again; and when the existence
    check answered true the call is made exactly once. *)
Theorem single_spawn w :
  (List.length (spawn_calls (trace (final (run w)))) <= 1)%nat
  /\ (List.length (children (trace (final (run w)))) <= 1)%nat
  /\ (forall c, In c (spawn_calls (trace (final (run w)))) ->
        spawn_calls (trace (final (run w))) = [c])
  /\ (forall p, In (EvExists p ExistsYes) (trace (final (run w))) ->
        List.length (spawn_calls (trace (final (run w)))) = 1%nat).
Proof.
  by_run_kind w; unfold children;
    cbn [spawn_calls filter created sc_answer List.length];
    repeat split; try lia; try reflexivity;
    try (intros c Hin; destruct Hin as [<- | []]; reflexivity);
    try (intros c Hin; contradiction);
    intros p Hin; find_event Hin.
Qed.

Lemma single_spawn_witness :
  spawn_calls (trace (final (run Sample.bad_image)))
  = [{| sc_application := L "C:\Mail\app\imapviewer.exe";
        sc_command_line := quoted (L "C:\Mail\app\imapviewer.exe");
        sc_inherit := false;
        sc_flags := 0;
        sc_directory := L "C:\Mail\app";
        sc_answer := SpawnFailed 193 |}]
  /\ List.length (spawn_calls (trace (final (run (Sample.exits 0))))) = 1%nat.
Proof.
  split.
  - apply (single_spawn Sample.bad_image). left. reflexivity.
  - apply (single_spawn (Sample.exits 0))
      with (p := L "C:\Mail\app\imapviewer.exe").
    right. left. reflexivity.
Defined.

(** C6 (resource cleanup).  Whenever [main] returns, the launcher holds no
    handle: every process or thread handle obtained from a successful
    spawn has been closed after it was obtained. *)
Theorem handles_released w n :
  returned (run w) = Some n ->
  handles (final (run w)) = []
  /\ forall h, In h (acquired (trace (final (run w)))) ->
       In h (closed (trace (final (run w)))).
Proof.
  by_run_kind w; intros R; try discriminate R;
    cbn [acquired closed]; split; try reflexivity; intros h Hin;
    try contradiction.
  exact Hin.
Qed.

Lemma handles_released_witness :
  handles (final (run (Sample.exits 42))) = []
  /\ forall h, In h (acquired (trace (final (run (Sample.exits 42))))) ->
       In h (closed (trace (final (run (Sample.exits 42))))).
Proof.
  apply (handles_released (Sample.exits 42) 42). reflexivity.
Defined.





(** C10 (silent query failure).  If GetExitCodeProcess fails, [main]
    returns 0, the value the exit code variable was initialised with, and
    reports nothing: no dialog, nothing on the error stream.  The same
    world in which the query succeeds with code 0 gives the same return
    value, the same dialogs and the same error stream. *)
Theorem exit_code_query_failure w h :
  In (EvGetExitCode h None) (trace (final (run w))) ->
  returned (run w) = Some 0
  /\ dialogs (trace (final (run w))) = []
  /\ stderr_text (trace (final (run w))) = []
  /\ returned (run (with_exit_code w (fun _ => Some 0))) = returned (run w)
  /\ dialogs (trace (final (run (with_exit_code w (fun _ => Some 0)))))
     = dialogs (trace (final (run w)))
  /\ stderr_text (trace (final (run (with_exit_code w (fun _ => Some 0)))))
     = stderr_text (trace (final (run w)))
  /\ In (EvGetExitCode h (Some 0))
       (trace (final (run (with_exit_code w (fun _ => Some 0))))).
Proof.
  pose proof (run_completed (with_exit_code w (fun _ => Some 0))) as R0.
  by_run_kind w; intros Hin; find_event Hin.
  injection Hin as <- Q.
  rewrite (R0 pi) by assumption.
  unfold queried_code, final, returned, spawn_event. rewrite Q.
  cbn [fst snd trace dialogs stderr_text exit_code_of with_exit_code In].
  repeat split; try reflexivity.
  right. right. right. right. left. reflexivity.
Qed.

Lemma exit_code_query_failure_witness :
  returned (run Sample.query_fails) = Some 0
  /\ dialogs (trace (final (run Sample.query_fails))) = []
  /\ stderr_text (trace (final (run Sample.query_fails))) = []
  /\ returned (run (with_exit_code Sample.query_fails (fun _ => Some 0)))
     = returned (run Sample.query_fails)
  /\ dialogs
       (trace (final (run (with_exit_code Sample.query_fails
                             (fun _ => Some 0)))))
     = dialogs (trace (final (run Sample.query_fails)))
  /\ stderr_text
       (trace (final (run (with_exit_code Sample.query_fails
                             (fun _ => Some 0)))))
     = stderr_text (trace (final (run Sample.query_fails)))
  /\ In (EvGetExitCode 100 (Some 0))
       (trace (final (run (with_exit_code Sample.query_fails
                             (fun _ => Some 0))))).
Proof.
  apply (exit_code_query_failure Sample.query_fails 100).
  right. right. right. right. left. reflexivity.
Defined.

(** ** Further properties *)

(** *** Resolving the directory (lines 17-27) *)

Lemma find_last_of_none_notin (s : wstring) (c : wchar_t) :
  find_last_of s [c] = None -> ~ In c s.
Proof.
  induction s as [ | a s IH]; cbn; intros F.
  - easy.
  - destruct (find_last_of s [c]) as [i | ]; [ discriminate | ].
    destruct (Z.eqb_spec a c) as [-> | Ne]; cbn in F; [ discriminate | ].
    intros [E | Hin]; [ contradiction | now apply IH ].
Qed.

Lemma find_last_of_split (s : wstring) (c : wchar_t) (i : nat) :
  find_last_of s [c] = Some i ->
  s = firstn i s ++ c :: skipn (S i) s /\ ~ In c (skipn (S i) s).
Proof.
  revert i. induction s as [ | a s IH]; cbn [find_last_of]; intros i F.
  - discriminate.
  - destruct (find_last_of s [c]) as [j | ] eqn:Fs.
    + injection F as <-. destruct (IH j eq_refl) as [Split Last].
      split; [ | exact Last ].
      change (a :: s = a :: (firstn j s ++ c :: skipn (S j) s)).
      f_equal. exact Split.
    + cbn in F. destruct (Z.eqb_spec a c) as [-> | Ne]; cbn in F;
        [ | discriminate ].
      injection F as <-. cbn. split; [ reflexivity | ].
      now apply find_last_of_none_notin.
Qed.

(** When the module file name is [dir], a backslash and a name without
    backslash, [GetExecutableDirectory] asks the system once, for at most
    [MAX_PATH] characters, and returns [dir]; it never throws. *)
Theorem GetExecutableDirectory_parent w dir name s :
  module_file_name w = dir ++ backslash :: name ->
  ~ In backslash name ->
  GetExecutableDirectory w s
  = (Ret dir, after s [EvGetModuleFileName MAX_PATH]).
Proof.
  intros E Hno.
  rewrite GetExecutableDirectory_run.
  now rewrite (install_dir_parent w dir name E Hno).
Qed.

Lemma GetExecutableDirectory_parent_witness :
  GetExecutableDirectory Sample.missing initial_state
  = (Ret (L "C:\Mail"), after initial_state [EvGetModuleFileName MAX_PATH]).
Proof.
  apply (GetExecutableDirectory_parent Sample.missing (L "C:\Mail")
           (L "IMAPViewer.exe") initial_state).
  - reflexivity.
  - cbn. intuition discriminate.
Defined.

(** Whenever the module file name contains a backslash, the directory
    returned, a backslash and a name free of backslashes make up the module
    file name again: only the last component is cut off. *)
Theorem GetExecutableDirectory_splits w D s s' :
  GetExecutableDirectory w s = (Ret D, s') ->
  In backslash (module_file_name w) ->
  exists name,
    module_file_name w = D ++ backslash :: name /\ ~ In backslash name.
Proof.
  intros G Hin.
  unfold GetExecutableDirectory, GetModuleFileNameW, bind, log, ret in G.
  cbn in G. change (find_last_of (module_file_name w) [92])
    with (find_last_of (module_file_name w) [backslash]) in G.
  destruct (find_last_of (module_file_name w) [backslash]) as [i | ] eqn:F.
  - injection G as <- _.
    destruct (find_last_of_split _ _ _ F) as [Split Last].
    exists (skipn (S i) (module_file_name w)). split; assumption.
  - now contradiction (find_last_of_none_notin _ _ F).
Qed.

Lemma GetExecutableDirectory_splits_witness :
  exists name,
    module_file_name (Sample.exits 0) = L "C:\Mail" ++ backslash :: name
    /\ ~ In backslash name.
Proof.
  apply (GetExecutableDirectory_splits (Sample.exits 0) (L "C:\Mail")
           initial_state
           (after initial_state [EvGetModuleFileName MAX_PATH])).
  - reflexivity.
  - cbn. intuition.
Defined.

(** When the module file name contains no backslash, the directory is the
    dot: the launcher then checks the relative path [.\app\imapviewer.exe]
    and, if it spawns, passes [.\app] as the directory. *)
Theorem no_separator_gives_relative_target w :
  ~ In backslash (module_file_name w) ->
  checked_paths (trace (final (run w))) = [L ".\app\imapviewer.exe"]
  /\ forall c, In c (spawn_calls (trace (final (run w)))) ->
       sc_application c = L ".\app\imapviewer.exe"
       /\ sc_directory c = L ".\app".
Proof.
  intros Hno.
  assert (T : target w = L ".\app\imapviewer.exe")
    by (unfold target; now rewrite (install_dir_default w Hno)).
  assert (A : app_dir w = L ".\app")
    by (unfold app_dir; now rewrite (install_dir_default w Hno)).
  rewrite <- T, <- A.
  by_run_kind w; cbn [checked_paths spawn_calls In]; split;
    try reflexivity; intros c Hin; try contradiction;
    destruct Hin as [<- | []]; split; reflexivity.
Qed.

Lemma no_separator_gives_relative_target_witness :
  checked_paths (trace (final (run Edge.bare_name)))
  = [L ".\app\imapviewer.exe"]
  /\ forall c, In c (spawn_calls (trace (final (run Edge.bare_name)))) ->
       sc_application c = L ".\app\imapviewer.exe"
       /\ sc_directory c = L ".\app".
Proof.
  apply (no_separator_gives_relative_target Edge.bare_name).
  cbn. intuition discriminate.
Defined.

(** *** Spawning (lines 39-65) *)

Lemma spawn_failure_goes_to_stderr_witness :
  returned (run Sample.bad_image) = Some 1
  /\ stderr_text (trace (final (run Sample.bad_image)))
     = spawn_failed_prefix ++ decimal 193 ++ [newline]
  /\ dialogs (trace (final (run Sample.bad_image))) = [].
Proof.
  apply (spawn_failure_goes_to_stderr Sample.bad_image
           (L "C:\Mail\app\imapviewer.exe")
           (quoted (L "C:\Mail\app\imapviewer.exe"))
           false 0 (L "C:\Mail\app") 193).
  right. right. left. reflexivity.
Defined.

(** After a failed spawn the launcher touches no handle: it does not wait,
    does not query an exit code and closes nothing, it holds no handle, and
    the last-error value it leaves is the one of the failed call. *)
Theorem failed_spawn_touches_no_handle w app cmd ih fl dir code :
  In (EvCreateProcess app cmd ih fl dir (SpawnFailed code))
    (trace (final (run w))) ->
  handle_uses (trace (final (run w))) = []
  /\ acquired (trace (final (run w))) = []
  /\ handles (final (run w)) = []
  /\ last_error (final (run w)) = code.
Proof.
  by_run_kind w; intros Hin; find_event Hin.
  inversion Hin; subst.
  cbn [handle_uses acquired]. repeat split; reflexivity.
Qed.

Lemma failed_spawn_touches_no_handle_witness :
  handle_uses (trace (final (run Sample.bad_image))) = []
  /\ acquired (trace (final (run Sample.bad_image))) = []
  /\ handles (final (run Sample.bad_image)) = []
  /\ last_error (final (run Sample.bad_image)) = 193.
Proof.
  apply (failed_spawn_touches_no_handle Sample.bad_image
           (L "C:\Mail\app\imapviewer.exe")
           (quoted (L "C:\Mail\app\imapviewer.exe"))
           false 0 (L "C:\Mail\app") 193).
  right. right. left. reflexivity.
Defined.

(** Every spawn asks for no handle inheritance and sets no creation flag,
    and the directory it passes is the one that holds the application:
    the application path is that directory, a backslash and
    [imapviewer.exe]. *)
Theorem spawn_parameters w c :
  In c (spawn_calls (trace (final (run w)))) ->
  sc_inherit c = false
  /\ sc_flags c = 0
  /\ sc_application c = sc_directory c ++ [backslash] ++ L "imapviewer.exe".
Proof.
  by_run_kind w; cbn [spawn_calls In]; intros Hin; try contradiction;
    destruct Hin as [<- | []]; cbn [sc_inherit sc_flags sc_application
                                     sc_directory];
    repeat split; unfold target, app_dir; now rewrite <- app_assoc.
Qed.

Lemma spawn_parameters_witness :
  sc_inherit sample_spawn = false
  /\ sc_flags sample_spawn = 0
  /\ sc_application sample_spawn
     = sc_directory sample_spawn ++ [backslash] ++ L "imapviewer.exe".
Proof.
  apply (spawn_parameters (Sample.exits 42) sample_spawn).
  left. reflexivity.
Defined.

(** A spawn happens only after the existence check has answered true for
    the very path that is then spawned. *)
Theorem spawn_follows_positive_check w c :
  In c (spawn_calls (trace (final (run w)))) ->
  exists t1 t2 t3,
    trace (final (run w))
    = t1 ++ EvExists (sc_application c) ExistsYes
         :: t2 ++ event_of_call c :: t3.
Proof.
  by_run_kind w; cbn [spawn_calls In]; intros Hin; try contradiction;
    destruct Hin as [<- | []]; unfold event_of_call;
    cbn [sc_inherit sc_flags sc_application sc_directory sc_command_line
           sc_answer];
    exists [EvGetModuleFileName MAX_PATH], []; eexists; reflexivity.
Qed.

Lemma spawn_follows_positive_check_witness :
  exists t1 t2 t3,
    trace (final (run (Sample.exits 42)))
    = t1 ++ EvExists (sc_application sample_spawn) ExistsYes
         :: t2 ++ event_of_call sample_spawn :: t3.
Proof.
  apply (spawn_follows_positive_check (Sample.exits 42) sample_spawn).
  left. reflexivity.
Defined.

(** Called from any state, [LaunchApplication] gives back the handle table
    it found whenever it returns, provided the system hands out handles
    that are not already in the table. *)
Theorem LaunchApplication_keeps_handle_table w path dir s n s' :
  LaunchApplication w path dir s = (Ret n, s') ->
  (forall pi, create_process w path (quoted path) dir = Spawned pi ->
     ~ In (hProcess pi) (handles s) /\ ~ In (hThread pi) (handles s)) ->
  handles s' = handles s.
Proof.
  intros Run Fresh.
  destruct (create_process w path (quoted path) dir) as [pi | code] eqn:C.
  - destruct (Fresh pi eq_refl) as [Fp Ft].
    assert (W : wait_for w (hProcess pi) = WaitNever
                \/ wait_for w (hProcess pi) <> WaitNever)
      by (destruct (wait_for w (hProcess pi)); auto; right; discriminate).
    destruct W as [W | W].
    + rewrite (LaunchApplication_blocked _ _ _ _ _ C W) in Run.
      discriminate Run.
    + rewrite (LaunchApplication_completed _ _ _ _ _ C W) in Run.
      injection Run as _ <-. cbn [handles].
      rewrite !remove_app, remove_pair, app_nil_r.
      pose proof (notin_remove Z.eq_dec _ _ Fp) as Rp.
      pose proof (notin_remove Z.eq_dec _ _ Ft) as Rt.
      unfold HANDLE in *. now rewrite Rp, Rt.
  - unfold LaunchApplication, CreateProcessW in Run.
    fold (quoted path) in Run. rewrite C in Run.
    unfold GetLastError, wcerr_endl, wcerr, bind, log, ret in Run.
    cbn [trace handles last_error wcerr_failed memory_exhausted] in Run.
    now injection Run as _ <-.
Qed.

Lemma LaunchApplication_keeps_handle_table_witness :
  handles
    (snd (LaunchApplication (Sample.exits 7) (L "C:\Mail\app\imapviewer.exe")
            (L "C:\Mail\app")
            {| trace := []; handles := [4; 8]; last_error := 0;
               wcerr_failed := false; memory_exhausted := false |}))
  = handles {| trace := []; handles := [4; 8]; last_error := 0;
               wcerr_failed := false; memory_exhausted := false |}.
Proof.
  apply (LaunchApplication_keeps_handle_table (Sample.exits 7)
           (L "C:\Mail\app\imapviewer.exe") (L "C:\Mail\app")
           {| trace := []; handles := [4; 8]; last_error := 0;
              wcerr_failed := false; memory_exhausted := false |} 7).
  - reflexivity.
  - intros pi E. injection E as <-. cbn. intuition discriminate.
Defined.

(** *** Waiting and cleaning up (lines 67-78) *)

(** If the wait on the child never ends, the launcher blocks for ever; it
    has then closed nothing and still holds the two handles of the
    child. *)
Theorem launcher_blocks_when_child_never_ends w h :
  In (EvWait h INFINITE WaitNever) (trace (final (run w))) ->
  fst (run w) = Hang
  /\ closed (trace (final (run w))) = []
  /\ acquired (trace (final (run w))) <> []
  /\ handles (final (run w)) = acquired (trace (final (run w))).
Proof.
  by_run_kind w; cbn [acquired closed]; intros Hin; find_event Hin.
  - repeat split. discriminate.
  - injection Hin as _ Wn. contradiction.
Qed.

Lemma launcher_blocks_when_child_never_ends_witness :
  fst (run Sample.hangs) = Hang
  /\ closed (trace (final (run Sample.hangs))) = []
  /\ acquired (trace (final (run Sample.hangs))) <> []
  /\ handles (final (run Sample.hangs))
     = acquired (trace (final (run Sample.hangs))).
Proof.
  apply (launcher_blocks_when_child_never_ends Sample.hangs 100).
  right. right. right. left. reflexivity.
Defined.

(** Every wait is without timeout and on the process handle that the
    spawn of this run returned. *)
Theorem wait_is_unbounded_on_child w h ms a :
  In (EvWait h ms a) (trace (final (run w))) ->
  ms = INFINITE
  /\ exists c pi,
       In c (spawn_calls (trace (final (run w))))
       /\ sc_answer c = Spawned pi
       /\ h = hProcess pi.
Proof.
  by_run_kind w; intros Hin; find_event Hin;
    injection Hin as <- <- _; (split; [ reflexivity | ]);
    cbn [spawn_calls]; eexists; exists pi;
    (split; [ left; reflexivity | split; reflexivity ]).
Qed.

Lemma wait_is_unbounded_on_child_witness :
  INFINITE = INFINITE
  /\ exists c pi,
       In c (spawn_calls (trace (final (run (Sample.exits 42)))))
       /\ sc_answer c = Spawned pi
       /\ 100 = hProcess pi.
Proof.
  apply (wait_is_unbounded_on_child (Sample.exits 42) 100 INFINITE
           WaitSignaled).
  right. right. right. left. reflexivity.
Defined.

(** A failed wait is not noticed: the exit code is queried all the same,
    whatever the query stores is returned converted to [int], both handles
    are closed and nothing is reported. *)
Theorem failed_wait_is_ignored w h :
  In (EvWait h INFINITE WaitFailed) (trace (final (run w))) ->
  exists a,
    In (EvGetExitCode h a) (trace (final (run w)))
    /\ returned (run w)
       = Some (static_cast_int (match a with Some n => n | None => 0 end))
    /\ closed (trace (final (run w))) = acquired (trace (final (run w)))
    /\ handles (final (run w)) = []
    /\ dialogs (trace (final (run w))) = []
    /\ stderr_text (trace (final (run w))) = [].
Proof.
  by_run_kind w; intros Hin; find_event Hin.
  injection Hin as <- _.
  exists (exit_code_of w (hProcess pi)).
  cbn [closed acquired dialogs stderr_text]. unfold queried_code.
  repeat split; try reflexivity.
  right. right. right. right. left. reflexivity.
Qed.

Lemma failed_wait_is_ignored_witness :
  exists a,
    In (EvGetExitCode 100 a) (trace (final (run Edge.wait_fails)))
    /\ returned (run Edge.wait_fails)
       = Some (static_cast_int (match a with Some n => n | None => 0 end))
    /\ closed (trace (final (run Edge.wait_fails)))
       = acquired (trace (final (run Edge.wait_fails)))
    /\ handles (final (run Edge.wait_fails)) = []
    /\ dialogs (trace (final (run Edge.wait_fails))) = []
    /\ stderr_text (trace (final (run Edge.wait_fails))) = [].
Proof.
  apply (failed_wait_is_ignored Edge.wait_fails 100).
  right. right. right. left. reflexivity.
Defined.

(** No handle is waited on or queried after it has been closed, and the
    launcher closes only handles it obtained from its own spawn. *)
Theorem no_use_after_close w :
  used_after_close (trace (final (run w))) = false
  /\ forall h, In h (closed (trace (final (run w)))) ->
       In h (acquired (trace (final (run w)))).
Proof.
  by_run_kind w;
    cbn [used_after_close existsb consults orb closed acquired];
    split; try reflexivity; intros h Hin; try contradiction.
  exact Hin.
Qed.

(** Whenever [main] returns, the handles it closed are exactly the handles
    it acquired, each closed once, the process handle before the thread
    handle. *)
Theorem closes_exactly_what_it_acquired w n :
  returned (run w) = Some n ->
  closed (trace (final (run w))) = acquired (trace (final (run w))).
Proof.
  by_run_kind w; intros R; try discriminate R; reflexivity.
Qed.

Lemma closes_exactly_what_it_acquired_witness :
  closed (trace (final (run (Sample.exits 42))))
  = acquired (trace (final (run (Sample.exits 42)))).
Proof.
  apply (closes_exactly_what_it_acquired (Sample.exits 42) 42). reflexivity.
Defined.

(** *** Reporting (lines 84-87, 98-103, 112-120) *)

(** Once a child has been created the launcher reports nothing: no dialog
    and nothing on the error stream, whatever the child's exit code. *)
Theorem silent_once_child_created w :
  children (trace (final (run w))) <> [] ->
  dialogs (trace (final (run w))) = []
  /\ stderr_text (trace (final (run w))) = [].
Proof.
  by_run_kind w; unfold children;
    cbn [spawn_calls filter created sc_answer dialogs stderr_text];
    intros Hc; try contradiction; split; reflexivity.
Qed.

Lemma silent_once_child_created_witness :
  dialogs (trace (final (run (Sample.exits 1)))) = []
  /\ stderr_text (trace (final (run (Sample.exits 1)))) = [].
Proof.
  apply (silent_once_child_created (Sample.exits 1)). discriminate.
Defined.



(** For a [std::exception] whose [what()] text is ASCII, the dialog shows
    [Unexpected error: ] followed by that text, character for character;
    [main] returns 1 and spawns nothing. *)
Theorem ascii_exception_text_is_shown w p what :
  In (EvExists p (ExistsThrows what)) (trace (final (run w))) ->
  is_ascii what = true ->
  dialogs (trace (final (run w))) = [L "Unexpected error: " ++ L what]
  /\ stderr_text (trace (final (run w)))
     = L "Unexpected error: " ++ L what ++ [newline]
  /\ returned (run w) = Some 1
  /\ spawn_calls (trace (final (run w))) = [].
Proof.
  assert (W : forall s, is_ascii s = true -> widen s = L s).
  { intros s. unfold is_ascii, widen, L.
    induction (list_ascii_of_string s) as [ | a l IH]; cbn [forallb map].
    - reflexivity.
    - intros A. apply andb_prop in A as [Ha Hl].
      unfold widen_char at 1. cbv zeta. rewrite Ha. now rewrite IH. }
  by_run_kind w; intros Hin Asc; find_event Hin.
  injection Hin as _ ->.
  cbn [dialogs stderr_text spawn_calls unexpected_message].
  assert (U : widen ("Unexpected error: " ++ what)
              = L "Unexpected error: " ++ L what).
  { unfold widen at 1. cbn [String.append list_ascii_of_string map].
    fold (widen what). now rewrite (W what Asc). }
  rewrite U.
  rewrite (insertion_ascii w (L "Unexpected error: " ++ L what))
    by (apply forallb_ascii_app; [ reflexivity | now apply L_ascii ]).
  cbn [fst snd]. rewrite app_nil_r, <- app_assoc.
  repeat split; reflexivity.
Qed.

Lemma ascii_exception_text_is_shown_witness :
  dialogs (trace (final (run Sample.unreadable)))
  = [L "Unexpected error: "
       ++ L "filesystem error: status: Access is denied"]
  /\ stderr_text (trace (final (run Sample.unreadable)))
     = L "Unexpected error: "
         ++ L "filesystem error: status: Access is denied" ++ [newline]
  /\ returned (run Sample.unreadable) = Some 1
  /\ spawn_calls (trace (final (run Sample.unreadable))) = [].
Proof.
  apply (ascii_exception_text_is_shown Sample.unreadable
           (L "C:\Mail\app\imapviewer.exe")
           "filesystem error: status: Access is denied").
  - right. left. reflexivity.
  - reflexivity.
Defined.

(** *** Exit codes (lines 70-78, 108-110) *)

Lemma queried_code_is_returned w h N :
  In (EvGetExitCode h (Some N)) (trace (final (run w))) ->
  returned (run w) = Some (static_cast_int N).
Proof.
  by_run_kind w; intros Hq; find_event Hq.
  injection Hq as _ Q. unfold queried_code. now rewrite Q.
Qed.

(** Forwarding loses nothing: two children whose exit codes, both in the
    range of a [DWORD], differ make the launcher return different values. *)
Theorem exit_codes_stay_distinct w1 w2 h1 h2 N1 N2 :
  In (EvGetExitCode h1 (Some N1)) (trace (final (run w1))) ->
  In (EvGetExitCode h2 (Some N2)) (trace (final (run w2))) ->
  0 <= N1 < 4294967296 ->
  0 <= N2 < 4294967296 ->
  returned (run w1) = returned (run w2) ->
  N1 = N2.
Proof.
  intros Q1 Q2 R1 R2 Same.
  rewrite (queried_code_is_returned w1 h1 N1 Q1),
    (queried_code_is_returned w2 h2 N2 Q2) in Same.
  injection Same as Same.
  rewrite <- (static_cast_int_mod N1 R1), <- (static_cast_int_mod N2 R2).
  now rewrite Same.
Qed.

Lemma exit_codes_stay_distinct_witness : 7 = 7.
Proof.
  apply (exit_codes_stay_distinct (Sample.exits 7) (Sample.exits 7)
           100 100 7 7).
  - right. right. right. right. left. reflexivity.
  - right. right. right. right. left. reflexivity.
  - lia.
  - lia.
  - reflexivity.
Defined.

(** *** Exceptions that leave main (lines 112-120) *)


